(** * SauceDemo login suite: the page object and the test data, verified

    The repository is a Playwright end-to-end suite.  Its own code is the
    [LoginPage] page object (pages/LoginPage.js), the constants of
    utils/testData.js and the scenarios that use both.  The browser and
    the site under test are external: they are modelled here as a
    [Driver], an arbitrary implementation of the Playwright calls the
    page object makes, and every statement about a method of the page
    object is proved for all drivers unless it says otherwise. *)

From stdpp Require Import base option list strings gmap fin_maps.
From Stdlib Require Import ZArith Ascii.
From Stdlib Require Import Floats.PrimFloat.

Local Open Scope string_scope.
Local Open Scope Z_scope.

(* The prices of testData.js are JavaScript numbers: each decimal
   literal denotes the nearest binary64 value. *)
#[local] Set Warnings "-inexact-float".

(** ** The Playwright interface the page object is written against *)

Module Playwright.

(** What a rejected promise carries.  Playwright raises
    [errors.TimeoutError] when a bounded wait runs out and a plain
    [Error] for everything else (closed page, detached frame, strict
    mode violation, ...). *)
Inductive JsError : Type :=
| TimeoutError (message : string)
| GenericError (message : string).

Definition is_timeout (e : JsError) : bool :=
  match e with TimeoutError _ => true | GenericError _ => false end.

(** How an awaited promise settles. *)
Inductive Outcome (A : Type) : Type :=
| Fulfilled (a : A)
| Rejected (e : JsError).
Arguments Fulfilled {A} a.
Arguments Rejected {A} e.

Definition fulfilled {A} (o : Outcome A) : bool :=
  match o with Fulfilled _ => true | Rejected _ => false end.

(** A locator is a selector resolved on use, [page.locator(sel)]. *)
Definition Locator := string.

(** The [state] option of [locator.waitFor]. *)
Inductive ElementState := Attached | Detached | Visible | Hidden.

(** The asynchronous calls of pages/LoginPage.js.  A [timeout] of
    [None] is an omitted option: the driver applies its default. *)
Inductive Call : Type :=
| PageGoto (url : string)
| LocatorFill (l : Locator) (value : string)
| LocatorClick (l : Locator)
| LocatorClear (l : Locator)
| LocatorWaitFor (l : Locator) (state : ElementState) (timeout : option Z)
| LocatorTextContent (l : Locator)
| PageWaitForURL (glob : string) (timeout : option Z).

(** What each call's promise fulfils with; [textContent] may be null. *)
Definition Resp (c : Call) : Type :=
  match c with
  | LocatorTextContent _ => option string
  | _ => unit
  end.

(** The calls that only observe the page, and those that act on it. *)
Definition is_wait (c : Call) : bool :=
  match c with
  | LocatorWaitFor _ _ _ | PageWaitForURL _ _ => true
  | _ => false
  end.

Definition is_click_on (l : Locator) (c : Call) : bool :=
  match c with
  | LocatorClick l' => String.eqb l l'
  | _ => false
  end.

(** The timeout a wait was given, if the call is a wait with one. *)
Definition timeout_of (c : Call) : option Z :=
  match c with
  | LocatorWaitFor _ _ t | PageWaitForURL _ t => t
  | _ => None
  end.

(** A browser page with the site behind it: a state, the synchronous
    [page.url()], and the settlement of each asynchronous call. *)
Record Driver : Type := {
  World : Type;
  url : World -> string;
  perform : forall c : Call, World -> Outcome (Resp c) * World
}.

(** An async function body: a tree of awaited calls.  The continuation
    of [Await] receives the settlement, so that [try]/[catch] is a
    function on bodies. *)
Inductive Prog (A : Type) : Type :=
| Return (a : A)
| Throw (e : JsError)
| Await (c : Call) (k : Outcome (Resp c) -> Prog A)
| PageUrl (k : string -> Prog A).
Arguments Return {A} a.
Arguments Throw {A} e.
Arguments Await {A} c k.
Arguments PageUrl {A} k.

(** [await call]: the value on fulfilment, a throw on rejection. *)
Definition await (c : Call) : Prog (Resp c) :=
  Await c (fun o => match o with
                    | Fulfilled v => Return v
                    | Rejected e => Throw e
                    end).

(** [page.url()], a synchronous read. *)
Definition page_url : Prog string := PageUrl Return.

Fixpoint bind {A B} (p : Prog A) (f : A -> Prog B) : Prog B :=
  match p with
  | Return a => f a
  | Throw e => Throw e
  | Await c k => Await c (fun o => bind (k o) f)
  | PageUrl k => PageUrl (fun u => bind (k u) f)
  end.

(** [try { body } catch (e) { handler e }]: any thrown value is caught. *)
Fixpoint try_catch {A} (body : Prog A) (handler : JsError -> Prog A) : Prog A :=
  match body with
  | Return a => Return a
  | Throw e => handler e
  | Await c k => Await c (fun o => try_catch (k o) handler)
  | PageUrl k => PageUrl (fun u => try_catch (k u) handler)
  end.

#[global] Instance Prog_ret : MRet Prog := fun _ a => Return a.
#[global] Instance Prog_bind : MBind Prog := fun _ _ f p => bind p f.

(** One awaited call and how it settled. *)
Record Event : Type := {
  ev_call : Call;
  ev_outcome : Outcome (Resp ev_call)
}.

Definition ev_ok (e : Event) : bool := fulfilled (ev_outcome e).

(** The error a rejected event carries. *)
Definition ev_error (e : Event) : option JsError :=
  match ev_outcome e with Fulfilled _ => None | Rejected x => Some x end.

(** A finished run: the awaited calls in order, how the async function
    settled, and the page it left behind. *)
Record Run (W A : Type) : Type := {
  trace : list Event;
  result : Outcome A;
  final : W
}.
Arguments trace {W A} r.
Arguments result {W A} r.
Arguments final {W A} r.

Definition calls {W A} (r : Run W A) : list Call := map ev_call (trace r).

Fixpoint run (d : Driver) {A} (p : Prog A) (w : World d) : Run (World d) A :=
  match p with
  | Return a => {| trace := []; result := Fulfilled a; final := w |}
  | Throw e => {| trace := []; result := Rejected e; final := w |}
  | Await c k =>
      let ow := perform d c w in
      let r := run d (k (fst ow)) (snd ow) in
      {| trace := {| ev_call := c; ev_outcome := fst ow |} :: trace r;
         result := result r;
         final := final r |}
  | PageUrl k => run d (k (url d w)) w
  end.

End Playwright.
Export Playwright.

(** ** pages/LoginPage.js *)

Module LoginPage.

(** The locators the constructor binds.  The [page] it also keeps is
    the driver a method's body is run against. *)
Record LoginPage : Type := {
  usernameInput : Locator;
  passwordInput : Locator;
  loginButton : Locator;
  errorMessage : Locator;
  errorCloseButton : Locator;
  inventoryLogo : Locator
}.

(** The double-quote character of the selector [data-test="error"]. *)
Definition dquote : string := String (Ascii.ascii_of_nat 34) EmptyString.

Definition constructor : LoginPage := {|
  usernameInput := "#user-name";
  passwordInput := "#password";
  loginButton := "#login-button";
  errorMessage := "[data-test=" +:+ dquote +:+ "error" +:+ dquote +:+ "]";
  errorCloseButton := ".error-button";
  inventoryLogo := ".app_logo"
|}.

Definition goto (this : LoginPage) : Prog unit :=
  await (PageGoto "https://www.saucedemo.com/").

Definition login (this : LoginPage) (username password : string) : Prog unit :=
  await (LocatorFill (usernameInput this) username);;
  await (LocatorFill (passwordInput this) password);;
  await (LocatorClick (loginButton this)).

Definition getErrorMessage (this : LoginPage) : Prog (option string) :=
  await (LocatorWaitFor (errorMessage this) Visible None);;
  await (LocatorTextContent (errorMessage this)).

Definition isErrorVisible (this : LoginPage) : Prog bool :=
  try_catch
    (await (LocatorWaitFor (errorMessage this) Visible (Some 3000));;
     Return true)
    (fun _ => Return false).

Definition isLoginSuccessful (this : LoginPage) : Prog bool :=
  try_catch
    (await (PageWaitForURL "**/inventory.html" (Some 5000));;
     await (LocatorWaitFor (inventoryLogo this) Visible (Some 3000));;
     Return true)
    (fun _ => Return false).

Definition isOnLoginPage (this : LoginPage) : Prog bool :=
  currentUrl ← page_url;
  Return (String.eqb currentUrl "https://www.saucedemo.com/" ||
          String.eqb currentUrl "https://www.saucedemo.com/index.html").

Definition clearInputs (this : LoginPage) : Prog unit :=
  await (LocatorClear (usernameInput this));;
  await (LocatorClear (passwordInput this)).

Definition closeErrorMessage (this : LoginPage) : Prog unit :=
  visible ← isErrorVisible this;
  if (visible : bool) then await (LocatorClick (errorCloseButton this))
  else Return tt.

End LoginPage.
Export LoginPage.

(** ** utils/testData.js *)

Module TestData.

Record Credential : Type := {
  username : string;
  password : string
}.

(** Objects live in a store and constants hold references to them:
    an object literal allocates, a plain initialiser copies the
    reference. *)
Definition Ref := nat.

Record Store : Type := {
  objects : gmap Ref Credential;
  next : Ref
}.

Definition empty_store : Store := {| objects := ∅; next := 0%nat |}.

Definition alloc (o : Credential) (s : Store) : Ref * Store :=
  (next s, {| objects := <[next s := o]> (objects s); next := S (next s) |}).

Definition deref (s : Store) (r : Ref) : option Credential := objects s !! r.

(** The credential constants the module exports. *)
Record Credentials : Type := {
  VALID_USER : Ref;
  STANDARD_USER : Ref;
  LOCKED_USER : Ref;
  INVALID_USER : Ref
}.

(** Evaluation of the four declarations, top to bottom. *)
Definition credentials_init : Credentials * Store :=
  let '(valid, s1) :=
    alloc {| username := "standard_user"; password := "secret_sauce" |} empty_store in
  let standard := valid in
  let '(locked, s2) :=
    alloc {| username := "locked_out_user"; password := "secret_sauce" |} s1 in
  let '(invalid, s3) :=
    alloc {| username := "invalid_user"; password := "wrong_password" |} s2 in
  ({| VALID_USER := valid; STANDARD_USER := standard;
      LOCKED_USER := locked; INVALID_USER := invalid |}, s3).

Definition credentials : Credentials := fst credentials_init.
Definition module_store : Store := snd credentials_init.

Definition VALID_PASSWORD : string := "secret_sauce".
Definition INVALID_PASSWORD : string := "wrong_password".

(** An object literal: the properties are defined in order, a later
    one of the same key replacing the earlier. *)
Definition object_literal {V} (props : list (string * V)) : gmap string V :=
  foldl (fun o kv => <[kv.1 := kv.2]> o) ∅ props.

(** A computed key [[e]]: the value of [e] as a string, and
    "undefined" when [e] is a missing property. *)
Definition computed_key (v : option string) : string := default "undefined" v.

Definition PRODUCTS : gmap string string := object_literal [
  ("BACKPACK", "Sauce Labs Backpack");
  ("BIKE_LIGHT", "Sauce Labs Bike Light");
  ("BOLT_TSHIRT", "Sauce Labs Bolt T-Shirt");
  ("FLEECE_JACKET", "Sauce Labs Fleece Jacket");
  ("ONESIE", "Sauce Labs Onesie");
  ("TSHIRT_RED", "Test.allTheThings() T-Shirt (Red)")
].

Definition PRODUCT_PRICES : gmap string float := object_literal [
  (computed_key (PRODUCTS !! "ONESIE"), 7.99%float);
  (computed_key (PRODUCTS !! "BIKE_LIGHT"), 9.99%float);
  (computed_key (PRODUCTS !! "BOLT_TSHIRT"), 15.99%float);
  (computed_key (PRODUCTS !! "TSHIRT_RED"), 15.99%float);
  (computed_key (PRODUCTS !! "BACKPACK"), 29.99%float);
  (computed_key (PRODUCTS !! "FLEECE_JACKET"), 49.99%float)
].

End TestData.

(** ** Test doubles for the driver

    Two small drivers, used to instantiate the statements that
    quantify over drivers.  Neither is the site under test. *)

Module Doubles.

(** A page that has been closed: every call rejects with the plain
    [Error] Playwright raises on a closed target. *)
Definition closed_error : JsError :=
  GenericError "Target page, context or browser has been closed".

Definition closed_page : Driver := {|
  World := unit;
  url := fun _ => "about:blank";
  perform := fun c w => (Rejected closed_error, w)
|}.

(** A static page: a URL, the set of visible elements, the values of
    the input fields and the text of the elements.  Waits look and
    change nothing; the dismiss control hides the error banner; no
    other control does anything. *)
Record StubWorld : Type := {
  stub_url : string;
  stub_visible : gset string;
  stub_value : gmap string string;
  stub_text : gmap string string
}.

Definition ends_with (suffix s : string) : bool :=
  let n := String.length suffix in
  let m := String.length s in
  (n <=? m)%nat && String.eqb (String.substring (m - n) n s) suffix.

(** The two shapes of URL pattern the stub understands: [**rest]
    matches a URL ending in [rest], anything else matches itself. *)
Definition glob_matches (glob u : string) : bool :=
  match glob with
  | String "*"%char (String "*"%char rest) => ends_with rest u
  | _ => String.eqb glob u
  end.

Definition timed_out (t : option Z) : JsError :=
  TimeoutError (match t with Some _ => "Timeout exceeded" | None => "Default timeout exceeded" end).

Definition stub_perform (dismiss banner : Locator) (c : Call) (w : StubWorld)
  : Outcome (Resp c) * StubWorld :=
  match c with
  | PageGoto u =>
      (Fulfilled tt, {| stub_url := u; stub_visible := stub_visible w;
                        stub_value := stub_value w; stub_text := stub_text w |})
  | LocatorFill l v =>
      (Fulfilled tt, {| stub_url := stub_url w; stub_visible := stub_visible w;
                        stub_value := <[l := v]> (stub_value w); stub_text := stub_text w |})
  | LocatorClear l =>
      (Fulfilled tt, {| stub_url := stub_url w; stub_visible := stub_visible w;
                        stub_value := <[l := ""]> (stub_value w); stub_text := stub_text w |})
  | LocatorClick l =>
      if String.eqb l dismiss
      then (Fulfilled tt, {| stub_url := stub_url w; stub_visible := stub_visible w ∖ {[banner]};
                             stub_value := stub_value w; stub_text := stub_text w |})
      else (Fulfilled tt, w)
  | LocatorWaitFor l st t =>
      let shown := bool_decide (l ∈ stub_visible w) in
      let holds := match st with
                   | Visible | Attached => shown
                   | Hidden | Detached => negb shown
                   end in
      (if holds then Fulfilled tt else Rejected (timed_out t), w)
  | LocatorTextContent l => (Fulfilled (stub_text w !! l), w)
  | PageWaitForURL g t =>
      (if glob_matches g (stub_url w) then Fulfilled tt else Rejected (timed_out t), w)
  end.

Definition stub_page (this : LoginPage) : Driver := {|
  World := StubWorld;
  url := stub_url;
  perform := stub_perform (errorCloseButton this) (errorMessage this)
|}.

(** The login page right after a rejected attempt: banner shown. *)
Definition after_failed_login (this : LoginPage) : StubWorld := {|
  stub_url := "https://www.saucedemo.com/";
  stub_visible := {[usernameInput this; passwordInput this; loginButton this;
                    errorMessage this; errorCloseButton this]};
  stub_value := {[usernameInput this := "locked_out_user";
                  passwordInput this := "secret_sauce"]};
  stub_text := {[errorMessage this :=
                   "Epic sadface: Sorry, this user has been locked out."]}
|}.

End Doubles.

(** ** Statements used by the results below *)

Module Contracts.

(** How the run of [p; f] is made of the run of [p] and, when [p]
    fulfils, the run of [f]. *)
Definition then_run {W A B} (r : Run W A) (f : A -> W -> Run W B) : Run W B :=
  match result r with
  | Fulfilled a =>
      let r' := f a (final r) in
      {| trace := trace r ++ trace r'; result := result r'; final := final r' |}
  | Rejected e => {| trace := trace r; result := Rejected e; final := final r |}
  end.

(** How the run of [try { p } catch (e) { h e }] is made of the run of
    [p] and, when [p] rejects, the run of the handler. *)
Definition catch_run {W A} (r : Run W A) (h : JsError -> W -> Run W A) : Run W A :=
  match result r with
  | Fulfilled _ => r
  | Rejected e =>
      let r' := h e (final r) in
      {| trace := trace r ++ trace r'; result := result r'; final := final r' |}
  end.

(** The clicks a run made on one control. *)
Definition clicks_on {W A} (l : Locator) (r : Run W A) : list Call :=
  List.filter (is_click_on l) (calls r).

(** The probe as the specification words it: the wait's timeout, and
    only the timeout, becomes [false]; any other error is passed on. *)
Definition swallows_timeout_only (d : Driver) (w : World d) : Prop :=
  let wait := LocatorWaitFor (errorMessage constructor) Visible (Some 3000) in
  let r := run d (isErrorVisible constructor) w in
  match fst (perform d wait w) with
  | Fulfilled _ => result r = Fulfilled true
  | Rejected (TimeoutError _) => result r = Fulfilled false
  | Rejected (GenericError m) => result r = Rejected (GenericError m)
  end.

(** What [closeErrorMessage] expects of the page: waiting for an
    element only looks at the page, and a click on the dismiss control
    that goes through leaves the error banner not visible. *)
Record Dismissible (d : Driver) (this : LoginPage) : Prop := {
  waits_only_look :
    forall l st t (w : World d), snd (perform d (LocatorWaitFor l st t) w) = w;
  dismiss_hides :
    forall w : World d,
      let clicked := perform d (LocatorClick (errorCloseButton this)) w in
      fulfilled (fst clicked) = true ->
      fulfilled (fst (perform d (LocatorWaitFor (errorMessage this) Visible (Some 3000))
                                (snd clicked))) = false
}.

End Contracts.
Export Contracts.

(** ** The rest of utils/testData.js *)

Module TestDataObjects.
Import TestData.

(** A property read through a constant, [VALID_USER.username]: the
    field of the object the constant refers to, and a [TypeError] if
    there is no such object. *)
Definition member (r : Ref) (field : Credential -> string) : Prog string :=
  match deref module_store r with
  | Some o => Return (field o)
  | None => Throw (GenericError "TypeError: Cannot read properties of undefined")
  end.

Definition SORT_OPTIONS : gmap string string := object_literal [
  ("NAME_ASC", "az");
  ("NAME_DESC", "za");
  ("PRICE_ASC", "lohi");
  ("PRICE_DESC", "hilo")
].

Definition SORT_LABELS : gmap string string := object_literal [
  ("NAME_ASC", "Name (A to Z)");
  ("NAME_DESC", "Name (Z to A)");
  ("PRICE_ASC", "Price (low to high)");
  ("PRICE_DESC", "Price (high to low)")
].

(** The two objects below are only read by field name. *)
Record ErrorMessages : Type := {
  LOCKED_USER : string;
  INVALID_CREDENTIALS : string;
  MISSING_USERNAME : string;
  MISSING_PASSWORD : string
}.

Definition ERROR_MESSAGES : ErrorMessages := {|
  LOCKED_USER := "Epic sadface: Sorry, this user has been locked out.";
  INVALID_CREDENTIALS :=
    "Epic sadface: Username and password do not match any user in this service";
  MISSING_USERNAME := "Epic sadface: Username is required";
  MISSING_PASSWORD := "Epic sadface: Password is required"
|}.

Record Urls : Type := {
  BASE : string;
  LOGIN : string;
  INVENTORY : string;
  CART : string
}.

Definition URLS : Urls := {|
  BASE := "https://www.saucedemo.com";
  LOGIN := "https://www.saucedemo.com/";
  INVENTORY := "https://www.saucedemo.com/inventory.html";
  CART := "https://www.saucedemo.com/cart.html"
|}.

End TestDataObjects.

(** ** The assertions the scenarios make

    [expect(value).toBe(...)] and [expect(value).toContain(...)] of the
    test library: a failed assertion throws a plain [Error]. *)

Module Expect.

(** [s.includes(sub)]. *)
Fixpoint includes (s sub : string) : bool :=
  if String.prefix sub s then true
  else match s with
       | EmptyString => false
       | String _ s' => includes s' sub
       end.

Definition assertion_failed (matcher : string) : JsError :=
  GenericError ("expect(received)." +:+ matcher).

(** [expect(received).toBe(expected)] on booleans. *)
Definition toBe (received expected : bool) : Prog unit :=
  if Bool.eqb received expected then Return tt
  else Throw (assertion_failed "toBe").

(** [expect(received).toContain(expected)] on what [textContent]
    gives: a null [received] fails the assertion. *)
Definition toContain (received : option string) (expected : string) : Prog unit :=
  match received with
  | Some s => if includes s expected then Return tt
              else Throw (assertion_failed "toContain")
  | None => Throw (assertion_failed "toContain")
  end.

End Expect.

(** ** The login scenarios that use only the page object *)

Module LoginSpec.
Import TestData TestDataObjects Expect.

(** [test.beforeEach]: a page object on the page, and the login page
    opened. *)
Definition beforeEach : Prog unit :=
  let loginPage := constructor in
  goto loginPage.

(** The runner runs the hook and, if it passes, the test. *)
Definition scenario (test : Prog unit) : Prog unit := beforeEach;; test.

(** test 'should show error with invalid username' *)
Definition should_show_error_with_invalid_username : Prog unit :=
  let loginPage := constructor in
  u ← member (INVALID_USER credentials) username;
  p ← member (INVALID_USER credentials) password;
  login loginPage u p;;
  isErrorVisible ← isErrorVisible loginPage;
  toBe isErrorVisible true;;
  errorMessage ← getErrorMessage loginPage;
  toContain errorMessage (INVALID_CREDENTIALS ERROR_MESSAGES);;
  isOnLoginPage ← isOnLoginPage loginPage;
  toBe isOnLoginPage true.

(** test 'should show error when username is empty' *)
Definition should_show_error_when_username_is_empty : Prog unit :=
  let loginPage := constructor in
  p ← member (VALID_USER credentials) password;
  login loginPage "" p;;
  errorMessage ← getErrorMessage loginPage;
  toContain errorMessage (MISSING_USERNAME ERROR_MESSAGES).

(** test 'should show error when password is empty' *)
Definition should_show_error_when_password_is_empty : Prog unit :=
  let loginPage := constructor in
  u ← member (VALID_USER credentials) username;
  login loginPage u "";;
  errorMessage ← getErrorMessage loginPage;
  toContain errorMessage (MISSING_PASSWORD ERROR_MESSAGES).

End LoginSpec.

(** ** What is asked of a page, and two more stub pages *)

Module PageLaws.

(** The calls that act on the page; the others wait or read. *)
Definition acts (c : Call) : bool :=
  match c with
  | PageGoto _ | LocatorFill _ _ | LocatorClick _ | LocatorClear _ => true
  | LocatorWaitFor _ _ _ | LocatorTextContent _ | PageWaitForURL _ _ => false
  end.

Definition only_observes {W A} (r : Run W A) : Prop :=
  forallb (fun c => negb (acts c)) (calls r) = true.

(** The login form before any attempt: no banner. *)
Definition fresh_login_page (this : LoginPage) : Doubles.StubWorld := {|
  Doubles.stub_url := "about:blank";
  Doubles.stub_visible := {[usernameInput this; passwordInput this; loginButton this]};
  Doubles.stub_value := ∅;
  Doubles.stub_text := ∅
|}.

(** The login form showing the banner for an empty username. *)
Definition username_required_page (this : LoginPage) : Doubles.StubWorld := {|
  Doubles.stub_url := "about:blank";
  Doubles.stub_visible := {[usernameInput this; passwordInput this; loginButton this;
                            errorMessage this; errorCloseButton this]};
  Doubles.stub_value := ∅;
  Doubles.stub_text := {[errorMessage this := "Epic sadface: Username is required"]}
|}.

End PageLaws.
Export PageLaws.

(** ** The wait of [getErrorMessage] under the test runner *)

Module UnderTheRunner.

(** What ends a wait that was given no bound: the runner's own test
    timeout, which is a plain [Error]. *)
Definition test_timeout : JsError :=
  GenericError "Test timeout of 30000ms exceeded.".

(** A page under the test runner on which no element ever shows and
    the URL never changes.  A wait given a bound runs it out and
    raises [TimeoutError]; a wait given none lasts until the runner
    ends the test.  Actions go through and change nothing. *)
Definition blank_page : Driver := {|
  World := unit;
  url := fun _ => "https://www.saucedemo.com/";
  perform := fun c w =>
    (match c return Outcome (Resp c) with
     | PageGoto _ => Fulfilled tt
     | LocatorFill _ _ => Fulfilled tt
     | LocatorClick _ => Fulfilled tt
     | LocatorClear _ => Fulfilled tt
     | LocatorWaitFor _ _ (Some _) => Rejected (TimeoutError "Timeout exceeded")
     | LocatorWaitFor _ _ None => Rejected test_timeout
     | LocatorTextContent _ => Fulfilled None
     | PageWaitForURL _ (Some _) => Rejected (TimeoutError "Timeout exceeded")
     | PageWaitForURL _ None => Rejected test_timeout
     end, w)
|}.

(** [getErrorMessage] as the specification words it: the wait for the
    error element carries a bound, and when the element does not show
    the caller gets a [TimeoutError]. *)
Definition bounded_wait_raises_timeout (d : Driver) (w : World d) : Prop :=
  let r := run d (getErrorMessage constructor) w in
  let read := LocatorTextContent (errorMessage constructor) in
  ∃ bound : Z,
    let wait := LocatorWaitFor (errorMessage constructor) Visible (Some bound) in
    let o1 := perform d wait w in
    match fst o1 with
    | Fulfilled _ =>
        calls r = [wait; read] ∧ result r = fst (perform d read (snd o1))
    | Rejected e =>
        calls r = [wait] ∧ result r = Rejected e ∧ is_timeout e = true
    end.

End UnderTheRunner.

(** ** Runs of composed bodies *)

Section RunLemmas.
Context (d : Driver).

Lemma run_await (c : Call) (w : World d) :
  run d (await c) w =
  {| trace := [{| ev_call := c; ev_outcome := fst (perform d c w) |}];
     result := fst (perform d c w);
     final := snd (perform d c w) |}.
Proof.
  unfold await. simpl. destruct (perform d c w) as [[v|e] w']; reflexivity.
Qed.

Lemma run_bind {A B} (p : Prog A) (f : A -> Prog B) (w : World d) :
  run d (bind p f) w = then_run (run d p w) (fun a w' => run d (f a) w').
Proof.
  revert w. induction p as [a|e|c k IH|k IH]; intros w; simpl.
  - unfold then_run. simpl. by destruct (run d (f a) w).
  - reflexivity.
  - rewrite IH. unfold then_run. simpl.
    by destruct (run d (k (fst (perform d c w))) (snd (perform d c w))) as [t [a|e] w'].
  - apply IH.
Qed.

Lemma run_try_catch {A} (p : Prog A) (h : JsError -> Prog A) (w : World d) :
  run d (try_catch p h) w = catch_run (run d p w) (fun e w' => run d (h e) w').
Proof.
  revert w. induction p as [a|e|c k IH|k IH]; intros w; simpl.
  - reflexivity.
  - unfold catch_run. simpl. by destruct (run d (h e) w).
  - rewrite IH. unfold catch_run. simpl.
    by destruct (run d (k (fst (perform d c w))) (snd (perform d c w))) as [t [a|e] w'].
  - apply IH.
Qed.

(** A [try] whose handler returns a value settles with a value. *)
Lemma try_catch_total {A} (p : Prog A) (v : A) (w : World d) :
  exists a, result (run d (try_catch p (fun _ => Return v)) w) = Fulfilled a.
Proof.
  rewrite run_try_catch. unfold catch_run.
  destruct (result (run d p w)) as [a|e] eqn:E; simpl; eauto.
Qed.

End RunLemmas.

(** ** The observers of the page object *)

Section Observers.
Context (d : Driver).

(** C1, as the code has it: [isErrorVisible] awaits one call, the wait
    for the error element to be visible with a bound of 3000 ms.  It
    settles with [true] when that wait fulfils and with [false] when
    the wait rejects, whatever the error: the [catch] names no error
    kind, so nothing is passed on to the caller. *)
Theorem isErrorVisible_swallows_every_error (w : World d) :
  let wait := LocatorWaitFor (errorMessage constructor) Visible (Some 3000) in
  let r := run d (isErrorVisible constructor) w in
  calls r = [wait] ∧
  final r = snd (perform d wait w) ∧
  match fst (perform d wait w) with
  | Fulfilled _ => result r = Fulfilled true
  | Rejected _ => result r = Fulfilled false
  end.
Proof.
  cbn zeta. unfold isErrorVisible, calls. simpl.
  destruct (perform d _ w) as [[[]|e] w']; simpl; auto.
Qed.

(** C10: neither probe ever rejects.  Each settles with a boolean,
    [true] exactly when every call it awaited fulfilled; so an error
    of any kind, raised by any awaited call, makes the answer [false]. *)
Theorem probes_never_reject (w : World d) :
  let r1 := run d (isErrorVisible constructor) w in
  let r2 := run d (isLoginSuccessful constructor) w in
  result r1 = Fulfilled (forallb ev_ok (trace r1)) ∧
  result r2 = Fulfilled (forallb ev_ok (trace r2)) ∧
  (∀ ev e, ev ∈ trace r1 → ev_error ev = Some e → result r1 = Fulfilled false) ∧
  (∀ ev e, ev ∈ trace r2 → ev_error ev = Some e → result r2 = Fulfilled false).
Proof.
  cbn zeta.
  assert (Hall : ∀ (r : Run (World d) bool),
             result r = Fulfilled (forallb ev_ok (trace r)) →
             ∀ ev e, ev ∈ trace r → ev_error ev = Some e → result r = Fulfilled false).
  { intros r Hr ev e Hin Herr. rewrite Hr. f_equal.
    apply not_true_is_false. intros Hok.
    rewrite forallb_forall in Hok. apply list_elem_of_In, Hok in Hin.
    unfold ev_ok, ev_error in *. destruct (ev_outcome ev); discriminate. }
  assert (H1 : result (run d (isErrorVisible constructor) w)
               = Fulfilled (forallb ev_ok (trace (run d (isErrorVisible constructor) w)))).
  { unfold isErrorVisible. simpl.
    destruct (perform d _ w) as [[[]|e] w']; reflexivity. }
  assert (H2 : result (run d (isLoginSuccessful constructor) w)
               = Fulfilled (forallb ev_ok (trace (run d (isLoginSuccessful constructor) w)))).
  { unfold isLoginSuccessful. simpl.
    destruct (perform d _ w) as [[[]|e] w']; simpl; [|reflexivity].
    destruct (perform d _ w') as [[[]|e] w'']; reflexivity. }
  split; [exact H1|]. split; [exact H2|].
  split; [exact (Hall _ H1)|exact (Hall _ H2)].
Qed.

(** C2: [isLoginSuccessful] first awaits the URL to match
    [**/inventory.html] (bound 5000 ms) and, once that has fulfilled,
    awaits the post-login logo to be visible (bound 3000 ms).  It
    answers [true] exactly when both waits fulfil, and a timeout of
    either wait gives [false]; it never rejects. *)
Theorem isLoginSuccessful_iff_both_waits (w : World d) :
  let url_wait := PageWaitForURL "**/inventory.html" (Some 5000) in
  let logo_wait := LocatorWaitFor (inventoryLogo constructor) Visible (Some 3000) in
  let o1 := perform d url_wait w in
  let o2 := perform d logo_wait (snd o1) in
  let r := run d (isLoginSuccessful constructor) w in
  calls r = (if fulfilled (fst o1) then [url_wait; logo_wait] else [url_wait]) ∧
  result r = Fulfilled (fulfilled (fst o1) && fulfilled (fst o2)) ∧
  (result r = Fulfilled true ↔ fulfilled (fst o1) = true ∧ fulfilled (fst o2) = true) ∧
  (∀ m, fst o1 = Rejected (TimeoutError m) → result r = Fulfilled false) ∧
  (∀ m, fulfilled (fst o1) = true → fst o2 = Rejected (TimeoutError m) →
        result r = Fulfilled false).
Proof.
  cbn zeta. unfold isLoginSuccessful, calls. simpl.
  destruct (perform d _ w) as [[[]|e1] w1]; simpl.
  - destruct (perform d _ w1) as [[[]|e2] w2]; simpl;
      repeat split; try discriminate; try tauto.
    intros [_ Hlogo]. discriminate Hlogo.
  - repeat split; try discriminate; try tauto.
    intros [Hurl _]. discriminate Hurl.
Qed.

(** C3, as the code has it: [getErrorMessage] awaits the error element
    to be visible and passes no timeout to that wait, nor to any call
    it makes: a bound, if there is one, is the driver's or the
    runner's.  It then settles as the read of the element's text
    content does.  When the wait rejects, with a timeout or with any
    other error, that same error reaches the caller and the text is
    not read. *)
Theorem getErrorMessage_waits_then_reads (w : World d) :
  let wait := LocatorWaitFor (errorMessage constructor) Visible None in
  let read := LocatorTextContent (errorMessage constructor) in
  let o1 := perform d wait w in
  let r := run d (getErrorMessage constructor) w in
  timeout_of wait = None ∧
  (∀ c, c ∈ calls r → timeout_of c = None) ∧
  match fst o1 with
  | Fulfilled _ =>
      calls r = [wait; read] ∧
      result r = fst (perform d read (snd o1)) ∧
      final r = snd (perform d read (snd o1))
  | Rejected e =>
      calls r = [wait] ∧ result r = Rejected e ∧ final r = snd o1
  end.
Proof.
  cbn zeta. split; [reflexivity|].
  unfold getErrorMessage, calls. simpl.
  destruct (perform d _ w) as [[[]|e1] w1]; simpl.
  - destruct (perform d _ w1) as [[t|e2] w2]; simpl;
      (split; [|auto]); intros c Hc;
      rewrite !elem_of_cons, elem_of_nil in Hc;
      destruct Hc as [->|[->|[]]]; reflexivity.
  - split; [|auto]. intros c Hc.
    rewrite elem_of_cons, elem_of_nil in Hc.
    destruct Hc as [->|[]]; reflexivity.
Qed.

(** C7: [isOnLoginPage] awaits nothing and leaves the page as it is;
    it answers [true] exactly when [page.url()] is one of the two
    login URLs, character for character. *)
Theorem isOnLoginPage_iff_login_url (w : World d) :
  let r := run d (isOnLoginPage constructor) w in
  trace r = [] ∧ final r = w ∧
  ∃ b, result r = Fulfilled b ∧
       (b = true ↔ url d w = "https://www.saucedemo.com/" ∨
                   url d w = "https://www.saucedemo.com/index.html").
Proof.
  cbn zeta. unfold isOnLoginPage. simpl. repeat split.
  eexists. split; [reflexivity|].
  rewrite orb_true_iff, !String.eqb_eq. reflexivity.
Qed.

End Observers.

(** C1, as the specification words it, fails on a closed page: the wait
    rejects with a plain [Error], which is no timeout, and the probe
    still answers [false] instead of passing the error on. *)
Lemma isErrorVisible_swallows_closed_page_error :
  let wait := LocatorWaitFor (errorMessage constructor) Visible (Some 3000) in
  fst (perform Doubles.closed_page wait tt) = Rejected Doubles.closed_error ∧
  is_timeout Doubles.closed_error = false ∧
  result (run Doubles.closed_page (isErrorVisible constructor) tt) = Fulfilled false ∧
  ¬ swallows_timeout_only Doubles.closed_page tt.
Proof.
  cbn zeta. repeat split.
  unfold swallows_timeout_only. simpl. discriminate.
Qed.

(** C3, as the specification words it, fails on a page where the
    banner never shows: the one wait [getErrorMessage] makes carries
    no bound, and what reaches the caller is the runner's plain
    [Error], which is no [TimeoutError]. *)
Lemma getErrorMessage_wait_has_no_bound :
  let r := run UnderTheRunner.blank_page (getErrorMessage constructor) tt in
  calls r = [LocatorWaitFor (errorMessage constructor) Visible None] ∧
  result r = Rejected UnderTheRunner.test_timeout ∧
  is_timeout UnderTheRunner.test_timeout = false ∧
  ¬ UnderTheRunner.bounded_wait_raises_timeout UnderTheRunner.blank_page tt.
Proof.
  cbn zeta. repeat split.
  unfold UnderTheRunner.bounded_wait_raises_timeout. cbn zeta.
  intros [bound H]. simpl in H. destruct H as (Hcalls & _).
  unfold calls in Hcalls. simpl in Hcalls. discriminate Hcalls.
Qed.

(** ** The actions of the page object *)

Section Actions.
Context (d : Driver).

(** C6: for every pair of strings, the empty string included,
    [login] awaits the fill of the username field with [username],
    then the fill of the password field with [password], then the
    click on the submit control, in that order and nothing else.  A
    later step is only begun once the earlier one has fulfilled; when
    all the calls fulfil the three have been made and [login] fulfils.
    [login] raises nothing of its own: if it rejects, it does so with
    the error of the last call it made. *)
Theorem login_three_steps_in_order (username password : string) (w : World d) :
  let steps := [LocatorFill (usernameInput constructor) username;
                LocatorFill (passwordInput constructor) password;
                LocatorClick (loginButton constructor)] in
  let r := run d (login constructor username password) w in
  calls r `prefix_of` steps ∧
  (forallb ev_ok (trace r) = true → calls r = steps ∧ result r = Fulfilled tt) ∧
  (result r = Fulfilled tt → calls r = steps ∧ forallb ev_ok (trace r) = true) ∧
  (∀ e, result r = Rejected e →
        ∃ ev, last (trace r) = Some ev ∧ ev_error ev = Some e).
Proof.
  cbn zeta. unfold login, calls. simpl.
  destruct (perform d _ w) as [[[]|e1] w1]; simpl.
  2:{ split; [by eexists [_; _]|].
      repeat split; intros; try discriminate.
      eexists; split; [reflexivity|]. by simplify_eq. }
  destruct (perform d _ w1) as [[[]|e2] w2]; simpl.
  2:{ split; [by eexists [_]|].
      repeat split; intros; try discriminate.
      eexists; split; [reflexivity|]. by simplify_eq. }
  destruct (perform d _ w2) as [[[]|e3] w3]; simpl.
  2:{ split; [by eexists []|].
      repeat split; intros; try discriminate.
      eexists; split; [reflexivity|]. by simplify_eq. }
  split; [by eexists []|].
  repeat split; intros; discriminate.
Qed.

(** C5: [closeErrorMessage] clicks the dismiss control exactly when
    its probe finds the error visible, and awaits nothing but the
    probe otherwise.  On a page where waits only look and the dismiss
    control hides the banner, it is idempotent: with no error visible
    it leaves the page as it was; after one call that clicked, the
    error is no longer visible and a second call clicks nothing and
    changes nothing; and two calls in a row settle as one call does,
    on the same page, with the same clicks. *)
Theorem closeErrorMessage_idempotent
    (page_ok : Dismissible d constructor) (w : World d) :
  let wait := LocatorWaitFor (errorMessage constructor) Visible (Some 3000) in
  let click := LocatorClick (errorCloseButton constructor) in
  let shown := fulfilled (fst (perform d wait w)) in
  let once := run d (closeErrorMessage constructor) w in
  let again := run d (closeErrorMessage constructor) (final once) in
  let twice := run d (closeErrorMessage constructor;; closeErrorMessage constructor) w in
  calls once = (if shown then [wait; click] else [wait]) ∧
  (shown = false → result once = Fulfilled tt ∧ final once = w) ∧
  (shown = true → result once = Fulfilled tt →
     fulfilled (fst (perform d wait (final once))) = false ∧
     calls again = [wait] ∧ result again = Fulfilled tt ∧ final again = final once) ∧
  result twice = result once ∧
  final twice = final once ∧
  clicks_on (errorCloseButton constructor) twice
    = clicks_on (errorCloseButton constructor) once.
Proof.
  destruct page_ok as [Hlook Hhide].
  cbn zeta in *.
  unfold closeErrorMessage, isErrorVisible, clicks_on, calls, mbind, Prog_bind.
  remember (errorMessage constructor) as banner eqn:Hb in *.
  remember (errorCloseButton constructor) as dismiss eqn:Hd in *.
  clear Hb Hd.
  rewrite !run_bind. unfold then_run. simpl.
  pose proof (Hlook banner Visible (Some 3000) w) as Hw.
  destruct (perform d (LocatorWaitFor banner Visible (Some 3000)) w)
    as [[[]|e] w0] eqn:E; simpl in *; subst w0.
  - (* the error is visible: the click is made *)
    pose proof (Hhide w) as Hc.
    destruct (perform d (LocatorClick dismiss) w) as [[[]|e] w1]; simpl in *.
    + specialize (Hc eq_refl).
      pose proof (Hlook banner Visible (Some 3000) w1) as Hw1.
      destruct (perform d (LocatorWaitFor banner Visible (Some 3000)) w1)
        as [[[]|e] w2]; simpl in *; [discriminate|subst w2].
      rewrite String.eqb_refl.
      repeat split; intros; try discriminate; auto.
    + repeat split; intros; try discriminate; auto.
  - (* no error visible: nothing but the probe, here and again *)
    rewrite E. simpl.
    repeat split; intros; try discriminate; auto.
Qed.

End Actions.

(** The static stub meets the contract [closeErrorMessage] relies on. *)
Lemma stub_page_dismissible : Dismissible (Doubles.stub_page constructor) constructor.
Proof.
  split.
  - intros l st t w. reflexivity.
  - intros w. cbn zeta. simpl. intros _.
    rewrite bool_decide_eq_false_2; [reflexivity|].
    rewrite not_elem_of_difference, elem_of_singleton. by right.
Qed.

(** C5 at the stub page showing the error banner. *)
Lemma closeErrorMessage_idempotent_on_stub :
  let d := Doubles.stub_page constructor in
  let w := Doubles.after_failed_login constructor in
  let once := run d (closeErrorMessage constructor) w in
  let twice := run d (closeErrorMessage constructor;; closeErrorMessage constructor) w in
  Dismissible d constructor ∧
  fulfilled (fst (perform d (LocatorWaitFor (errorMessage constructor) Visible (Some 3000)) w))
    = true ∧
  result twice = result once ∧ final twice = final once.
Proof.
  cbn zeta.
  split; [exact stub_page_dismissible|].
  split; [vm_compute; reflexivity|].
  pose proof (closeErrorMessage_idempotent (Doubles.stub_page constructor)
                stub_page_dismissible (Doubles.after_failed_login constructor)) as H.
  cbn zeta in H. destruct H as (_ & _ & _ & Hres & Hfin & _).
  split; [exact Hres|exact Hfin].
Defined.

(** ** The constants of utils/testData.js *)

Section TestDataFacts.
Import TestData.

(** The keys of an object literal are the keys written in it. *)
Lemma dom_object_literal {V} (props : list (string * V)) :
  dom (object_literal props) = list_to_set (props.*1).
Proof.
  unfold object_literal.
  assert (Hacc : ∀ acc : gmap string V,
             dom (foldl (λ o kv, <[kv.1 := kv.2]> o) acc props)
             = list_to_set (props.*1) ∪ dom acc).
  { induction props as [|[k v] props IH]; intros acc; simpl.
    - by rewrite (left_id_L ∅ (∪)).
    - rewrite IH, dom_insert_L.
      by rewrite (assoc_L (∪)), (comm_L (∪) _ {[k]}). }
  by rewrite Hacc, dom_empty_L, (right_id_L ∅ (∪)).
Qed.

(** C8: every key of [PRODUCT_PRICES] is the display name that
    [PRODUCTS] gives to some product id. *)
Theorem product_prices_keys_are_product_names (name : string) :
  name ∈ dom PRODUCT_PRICES → ∃ id, PRODUCTS !! id = Some name.
Proof.
  unfold PRODUCT_PRICES. rewrite dom_object_literal. simpl.
  rewrite !elem_of_union, !elem_of_singleton, elem_of_empty.
  intros [->|[->|[->|[->|[->|[->|[]]]]]]].
  - by exists "ONESIE".
  - by exists "BIKE_LIGHT".
  - by exists "BOLT_TSHIRT".
  - by exists "TSHIRT_RED".
  - by exists "BACKPACK".
  - by exists "FLEECE_JACKET".
Qed.

(** C8 at the cheapest product. *)
Lemma onesie_price_has_a_product_name :
  "Sauce Labs Onesie" ∈ dom PRODUCT_PRICES ∧
  ∃ id, PRODUCTS !! id = Some "Sauce Labs Onesie".
Proof.
  assert (Hin : "Sauce Labs Onesie" ∈ dom PRODUCT_PRICES).
  { apply elem_of_dom. vm_compute. eauto. }
  split; [exact Hin|].
  exact (product_prices_keys_are_product_names "Sauce Labs Onesie" Hin).
Defined.

(** C9: [STANDARD_USER] holds the reference [VALID_USER] holds, not a
    copy of the object.  So whatever the store, the two names read the
    same credential, field by field; as the module leaves it, that is
    [standard_user] with [secret_sauce]. *)
Theorem standard_user_is_valid_user :
  STANDARD_USER credentials = VALID_USER credentials ∧
  (∀ s : Store,
      deref s (STANDARD_USER credentials) = deref s (VALID_USER credentials) ∧
      username <$> deref s (STANDARD_USER credentials)
        = username <$> deref s (VALID_USER credentials) ∧
      password <$> deref s (STANDARD_USER credentials)
        = password <$> deref s (VALID_USER credentials)) ∧
  deref module_store (VALID_USER credentials)
    = Some {| username := "standard_user"; password := "secret_sauce" |} ∧
  deref module_store (STANDARD_USER credentials)
    = Some {| username := "standard_user"; password := "secret_sauce" |}.
Proof.
  split; [reflexivity|]. split; [intros s; repeat split|].
  split; reflexivity.
Qed.

End TestDataFacts.

(** ** After a login attempt *)

Section AfterLogin.
Context (d : Driver).

(** X1: what the page object contributes to a failed attempt, whatever
    the credentials: if, after [login], the page does not reach the
    inventory URL within the probe's bound and is still on the login
    URL, then [isLoginSuccessful] answers [false] and [isOnLoginPage]
    answers [true].  Whether a given pair is refused is the site's
    decision; [login] hands the strings to the driver as they are. *)
Theorem refused_login_is_observed (username password : string) (w : World d) :
  let attempt := run d (login constructor username password) w in
  let url_wait := perform d (PageWaitForURL "**/inventory.html" (Some 5000)) (final attempt) in
  let probe := run d (isLoginSuccessful constructor) (final attempt) in
  let here := run d (isOnLoginPage constructor) (final probe) in
  fulfilled (fst url_wait) = false →
  url d (snd url_wait) = "https://www.saucedemo.com/" →
  result probe = Fulfilled false ∧ result here = Fulfilled true.
Proof.
  cbn zeta. intros Hwait Hurl.
  set (w1 := final (run d (login constructor username password) w)) in *.
  unfold isLoginSuccessful, isOnLoginPage. simpl.
  destruct (perform d (PageWaitForURL _ _) w1) as [[[]|e] w2]; simpl in *;
    [discriminate|].
  by rewrite Hurl.
Qed.

End AfterLogin.

(** X1 for the locked-out pair on the stub page, which lets nobody in. *)
Lemma locked_user_refused_on_stub :
  let d := Doubles.stub_page constructor in
  let attempt := run d (login constructor "locked_out_user" "secret_sauce")
                     (Doubles.after_failed_login constructor) in
  let probe := run d (isLoginSuccessful constructor) (final attempt) in
  let here := run d (isOnLoginPage constructor) (final probe) in
  result probe = Fulfilled false ∧ result here = Fulfilled true.
Proof.
  cbn zeta.
  apply (refused_login_is_observed (Doubles.stub_page constructor)
           "locked_out_user" "secret_sauce" (Doubles.after_failed_login constructor));
    vm_compute; reflexivity.
Defined.

(** ** More on the page object *)

Section PageObject.
Context (d : Driver).

(** X2: the observers never act on the page.  Whatever the driver
    answers, [isErrorVisible], [isLoginSuccessful], [getErrorMessage]
    and [isOnLoginPage] await only waits and reads of text: no
    navigation, no fill, no clear, no click. *)
Theorem observers_only_observe (w : World d) :
  only_observes (run d (isErrorVisible constructor) w) ∧
  only_observes (run d (isLoginSuccessful constructor) w) ∧
  only_observes (run d (getErrorMessage constructor) w) ∧
  only_observes (run d (isOnLoginPage constructor) w).
Proof.
  unfold only_observes, calls.
  unfold isErrorVisible, isLoginSuccessful, getErrorMessage, isOnLoginPage.
  simpl. repeat split.
  - destruct (perform d _ w) as [[[]|e] w1]; reflexivity.
  - destruct (perform d _ w) as [[[]|e] w1]; simpl; [|reflexivity].
    destruct (perform d _ w1) as [[[]|e] w2]; reflexivity.
  - destruct (perform d _ w) as [[[]|e] w1]; simpl; [|reflexivity].
    destruct (perform d _ w1) as [[t|e] w2]; reflexivity.
Qed.

(** X3: [clearInputs] clears the username field and then the password
    field, the second only once the first clear has fulfilled, and
    awaits nothing else; in particular it never clicks the submit
    control.  When both clears fulfil it fulfils; when it rejects, the
    error is that of the clear it made last. *)
Theorem clearInputs_clears_both_fields (w : World d) :
  let steps := [LocatorClear (usernameInput constructor);
                LocatorClear (passwordInput constructor)] in
  let first := perform d (LocatorClear (usernameInput constructor)) w in
  let second := perform d (LocatorClear (passwordInput constructor)) (snd first) in
  let r := run d (clearInputs constructor) w in
  calls r = (if fulfilled (fst first) then steps else take 1 steps) ∧
  result r = (if fulfilled (fst first) then fst second else fst first) ∧
  final r = (if fulfilled (fst first) then snd second else snd first) ∧
  clicks_on (loginButton constructor) r = [].
Proof.
  cbn zeta. unfold clearInputs, clicks_on, calls. simpl.
  destruct (perform d _ w) as [[[]|e1] w1]; simpl; [|auto].
  destruct (perform d _ w1) as [[[]|e2] w2]; simpl; auto.
Qed.

(** X4: [closeErrorMessage] settles as the click on the dismiss
    control does, when its probe finds the error; when the probe's
    wait rejects, with a timeout or with any other error, it fulfils
    without a click, on the page the probe left.  So an error of the
    probe never reaches the caller, and an error of the click always
    does. *)
Theorem closeErrorMessage_settles_as_click (w : World d) :
  let probe := perform d (LocatorWaitFor (errorMessage constructor) Visible (Some 3000)) w in
  let click := perform d (LocatorClick (errorCloseButton constructor)) (snd probe) in
  let r := run d (closeErrorMessage constructor) w in
  match fst probe with
  | Fulfilled _ => result r = fst click ∧ final r = snd click
  | Rejected _ =>
      result r = Fulfilled tt ∧ final r = snd probe ∧
      clicks_on (errorCloseButton constructor) r = []
  end.
Proof.
  cbn zeta. unfold closeErrorMessage, isErrorVisible, clicks_on, calls. simpl.
  destruct (perform d _ w) as [[[]|e1] w1]; simpl; [|auto].
  destruct (perform d _ w1) as [[[]|e2] w2]; simpl; auto.
Qed.


(** X6: the URL constants and the page object agree on the login
    page and on nothing else.  [goto] opens [URLS.LOGIN], at which
    [isOnLoginPage] answers [true]; at [URLS.BASE], which lacks the
    final slash, and at the inventory and cart URLs it answers
    [false]. *)
Theorem login_url_constants_agree (w : World d) :
  let here := result (run d (isOnLoginPage constructor) w) in
  calls (run d (goto constructor) w) = [PageGoto (TestDataObjects.LOGIN TestDataObjects.URLS)] ∧
  (url d w = TestDataObjects.LOGIN TestDataObjects.URLS → here = Fulfilled true) ∧
  (url d w = TestDataObjects.BASE TestDataObjects.URLS → here = Fulfilled false) ∧
  (url d w = TestDataObjects.INVENTORY TestDataObjects.URLS → here = Fulfilled false) ∧
  (url d w = TestDataObjects.CART TestDataObjects.URLS → here = Fulfilled false).
Proof.
  cbn zeta. unfold goto, isOnLoginPage, calls. simpl.
  split; [by destruct (perform d _ w) as [[[]|e] w1]|].
  repeat split; intros ->; reflexivity.
Qed.

End PageObject.

(** ** More on the constants *)

Section MoreTestData.
Import TestData TestDataObjects.

(** X7: the price table covers the catalog exactly.  Its keys are the
    display names of [PRODUCTS], all of them; there are as many prices
    as products, so no two products share a name and no price was
    written over; and no computed key missed its product and became
    [undefined]. *)
Theorem every_product_has_one_price :
  (dom PRODUCT_PRICES : gset string) = map_img PRODUCTS ∧
  size PRODUCT_PRICES = size PRODUCTS ∧
  size PRODUCTS = 6%nat ∧
  PRODUCT_PRICES !! "undefined" = None.
Proof.
  split.
  - (* both sides are closed sets of strings: compare them *)
    apply (bool_decide_unpack _). by vm_compute.
  - by vm_compute.
Qed.

(** X8: the sort options and their labels are keyed alike: every
    option has a label and every label an option, and the four machine
    values are pairwise different, as are the four labels. *)
Theorem sort_labels_match_sort_options :
  (dom SORT_LABELS : gset string) = dom SORT_OPTIONS ∧
  size SORT_OPTIONS = 4%nat ∧
  size (map_img SORT_OPTIONS : gset string) = 4%nat ∧
  size (map_img SORT_LABELS : gset string) = 4%nat.
Proof.
  split.
  - unfold SORT_LABELS, SORT_OPTIONS. by rewrite !dom_object_literal.
  - by vm_compute.
Qed.

(** X9: the credentials the scenarios combine.  [VALID_PASSWORD] is
    the password of [VALID_USER] and of [LOCKED_USER], and
    [INVALID_PASSWORD] that of [INVALID_USER], and the two passwords
    differ; the three objects are three different objects with three
    different usernames. *)
Theorem credential_constants_agree :
  password <$> deref module_store (VALID_USER credentials) = Some VALID_PASSWORD ∧
  password <$> deref module_store (TestData.LOCKED_USER credentials) = Some VALID_PASSWORD ∧
  password <$> deref module_store (INVALID_USER credentials) = Some INVALID_PASSWORD ∧
  VALID_PASSWORD ≠ INVALID_PASSWORD ∧
  NoDup [VALID_USER credentials; TestData.LOCKED_USER credentials; INVALID_USER credentials] ∧
  NoDup (omap (λ r, username <$> deref module_store r)
              [VALID_USER credentials; TestData.LOCKED_USER credentials; INVALID_USER credentials]) ∧
  length (omap (λ r, username <$> deref module_store r)
               [VALID_USER credentials; TestData.LOCKED_USER credentials; INVALID_USER credentials])
    = 3%nat.
Proof.
  repeat split; try reflexivity; try discriminate.
  - apply (bool_decide_unpack _). by vm_compute.
  - apply (bool_decide_unpack _). by vm_compute.
Qed.

End MoreTestData.

(** ** The scenarios *)

(** [includes] is [String.prototype.includes]: it finds [sub]
    somewhere in [s]. *)
Lemma prefix_app (p s : string) :
  String.prefix p s = true ↔ ∃ b, s = p +:+ b.
Proof.
  revert s. induction p as [|a p IH]; intros s; simpl.
  - destruct s; split; eauto.
  - destruct s as [|b s]; simpl.
    + split; [discriminate|]. intros [c Hc]. discriminate Hc.
    + destruct (ascii_dec a b) as [->|Hne].
      * rewrite IH. split; intros [c Hc]; exists c.
        -- by rewrite Hc.
        -- change (String b s = String b (p +:+ c)) in Hc. congruence.
      * split; [discriminate|]. intros [c Hc].
        change (String b s = String a (p +:+ c)) in Hc. congruence.
Qed.

Lemma includes_cons (c : ascii) (s sub : string) :
  Expect.includes (String c s) sub
  = if String.prefix sub (String c s) then true else Expect.includes s sub.
Proof. reflexivity. Qed.

Lemma includes_spec (s sub : string) :
  Expect.includes s sub = true ↔ ∃ a b, s = a +:+ sub +:+ b.
Proof.
  induction s as [|c s IH].
  - destruct sub as [|c sub]; simpl.
    + split; [intros _|reflexivity]. by exists "", "".
    + split; [discriminate|]. intros (a & b & Hab).
      destruct a; discriminate Hab.
  - rewrite includes_cons.
    destruct (String.prefix sub (String c s)) eqn:Hp.
    + apply prefix_app in Hp as [b Hb]. split; [intros _|reflexivity].
      by exists "", b.
    + rewrite IH. split.
      * intros (a & b & ->). by exists (String c a), b.
      * intros (a & b & Hab). destruct a as [|c' a].
        -- assert (String.prefix sub (String c s) = true)
             by (apply prefix_app; eauto).
           congruence.
        -- change (String c s = String c' (a +:+ sub +:+ b)) in Hab.
           injection Hab as _ ->. eauto.
Qed.

Section Scenarios.
Context (d : Driver).
Import TestData TestDataObjects Expect LoginSpec.

(** The constants the scenarios read are there, with these values. *)
Lemma member_credentials :
  member (INVALID_USER credentials) username = Return "invalid_user" ∧
  member (INVALID_USER credentials) password = Return "wrong_password" ∧
  member (VALID_USER credentials) username = Return "standard_user" ∧
  member (VALID_USER credentials) password = Return "secret_sauce".
Proof. repeat split; by vm_compute. Qed.

(** The hook: one navigation, which settles it. *)
Lemma run_beforeEach (w : World d) :
  run d beforeEach w =
  {| trace := [{| ev_call := PageGoto "https://www.saucedemo.com/";
                  ev_outcome := fst (perform d (PageGoto "https://www.saucedemo.com/") w) |}];
     result := fst (perform d (PageGoto "https://www.saucedemo.com/") w);
     final := snd (perform d (PageGoto "https://www.saucedemo.com/") w) |}.
Proof.
  unfold beforeEach, goto. simpl.
  by destruct (perform d _ w) as [[[]|e] w0].
Qed.

(** The shape two of the scenarios share: an attempt, the text of the
    banner, and the assertion on it. *)
Lemma error_text_scenario (u p expected : string) (w : World d) :
  let attempt := run d (login constructor u p) w in
  let shown := perform d (LocatorWaitFor (errorMessage constructor) Visible None)
                       (final attempt) in
  let text := perform d (LocatorTextContent (errorMessage constructor)) (snd shown) in
  let r := run d (login constructor u p;;
                  m ← getErrorMessage constructor;
                  toContain m expected) w in
  (result r = Fulfilled tt ↔
     result attempt = Fulfilled tt ∧ fulfilled (fst shown) = true ∧
     ∃ s, fst text = Fulfilled (Some s) ∧ includes s expected = true) ∧
  (∀ e, result attempt = Fulfilled tt → fst shown = Rejected e →
        result r = Rejected e).
Proof.
  cbn zeta. unfold mbind, Prog_bind. rewrite run_bind. unfold then_run.
  destruct (run d (login constructor u p) w) as [t [[]|e0] w1]; simpl.
  2:{ split; [|intros e He; discriminate He].
      split; [discriminate|]. intros [He _]. discriminate He. }
  unfold getErrorMessage, toContain. simpl.
  destruct (perform d (LocatorWaitFor _ _ _) w1) as [[[]|e1] w2]; simpl.
  2:{ split; [|by intros e _ [= ->]].
      split; [discriminate|]. intros (_ & He & _). discriminate He. }
  split; [|intros e _ He; discriminate He].
  destruct (perform d (LocatorTextContent _) w2) as [[[s|]|e2] w3]; simpl.
  - destruct (includes s expected) eqn:Hin; simpl.
    + split; [|done]. intros _. repeat split. eauto.
    + split; [discriminate|]. intros (_ & _ & s' & [= <-] & Hs). congruence.
  - split; [discriminate|]. intros (_ & _ & s' & Hs & _). discriminate Hs.
  - split; [discriminate|]. intros (_ & _ & s' & Hs & _). discriminate Hs.
Qed.

(** X10: the scenario 'should show error with invalid username',
    hook included, passes exactly when the navigation goes through,
    the attempt with [invalid_user] and [wrong_password] goes through,
    the banner is seen by the 3000 ms probe and again by the wait of
    [getErrorMessage], its text is a string that contains the message
    for credentials that match no user, and the page is then at one of
    the two login URLs. *)
Theorem invalid_username_scenario_passes_iff (w : World d) :
  let nav := perform d (PageGoto "https://www.saucedemo.com/") w in
  let attempt := run d (login constructor "invalid_user" "wrong_password") (snd nav) in
  let probe := perform d (LocatorWaitFor (errorMessage constructor) Visible (Some 3000))
                       (final attempt) in
  let shown := perform d (LocatorWaitFor (errorMessage constructor) Visible None)
                       (snd probe) in
  let text := perform d (LocatorTextContent (errorMessage constructor)) (snd shown) in
  let r := run d (scenario should_show_error_with_invalid_username) w in
  result r = Fulfilled tt ↔
    fulfilled (fst nav) = true ∧
    result attempt = Fulfilled tt ∧
    fulfilled (fst probe) = true ∧
    fulfilled (fst shown) = true ∧
    (∃ s, fst text = Fulfilled (Some s) ∧
          includes s "Epic sadface: Username and password do not match any user in this service"
          = true) ∧
    (url d (snd text) = "https://www.saucedemo.com/" ∨
     url d (snd text) = "https://www.saucedemo.com/index.html").
Proof.
  cbn zeta. unfold scenario, should_show_error_with_invalid_username.
  cbn zeta. unfold mbind, Prog_bind.
  destruct member_credentials as (-> & -> & _ & _).
  rewrite run_bind, run_beforeEach. unfold then_run. cbn [result final trace].
  destruct (perform d (PageGoto _) w) as [[[]|e] w0]; cbn [fst snd result fulfilled].
  2:{ split; [discriminate|]. intros [He _]. discriminate He. }
  cbn [bind]. rewrite run_bind. unfold then_run.
  destruct (run d (login constructor _ _) w0) as [t [[]|e0] w1]; simpl.
  2:{ split; [discriminate|]. intros (_ & He & _). discriminate He. }
  unfold isErrorVisible, getErrorMessage, isOnLoginPage, toBe, toContain. simpl.
  destruct (perform d (LocatorWaitFor _ _ (Some _)) w1) as [[[]|e1] w2]; simpl.
  2:{ split; [discriminate|]. intros (_ & _ & He & _). discriminate He. }
  destruct (perform d (LocatorWaitFor _ _ None) w2) as [[[]|e2] w3]; simpl.
  2:{ split; [discriminate|]. intros (_ & _ & _ & He & _). discriminate He. }
  destruct (perform d (LocatorTextContent _) w3) as [[[s|]|e3] w4]; simpl.
  2,3: split; [discriminate|]; intros (_ & _ & _ & _ & (s' & Hs & _) & _);
       discriminate Hs.
  destruct (includes s _) eqn:Hin; simpl.
  2:{ split; [discriminate|].
      intros (_ & _ & _ & _ & (s' & [= <-] & Hs) & _). congruence. }
  destruct (String.eqb (url d w4) "https://www.saucedemo.com/") eqn:Ha; simpl.
  { apply String.eqb_eq in Ha. split; [|reflexivity]. intros _.
    repeat split; eauto. }
  destruct (String.eqb (url d w4) "https://www.saucedemo.com/index.html") eqn:Hb; simpl.
  { apply String.eqb_eq in Hb. split; [|reflexivity]. intros _.
    repeat split; eauto. }
  apply String.eqb_neq in Ha, Hb.
  split; [discriminate|]. intros (_ & _ & _ & _ & _ & [Hu|Hu]); contradiction.
Qed.

(** X11: in that scenario, when the attempt went through but the
    probe does not see the banner, whatever error its wait raised, the
    scenario fails by its own [toBe] assertion, which is no timeout.
    It fails right after the probe: [getErrorMessage], whose wait has
    no bound of its own, is never called. *)
Theorem invalid_username_scenario_fails_at_probe (w : World d) :
  let nav := perform d (PageGoto "https://www.saucedemo.com/") w in
  let attempt := run d (login constructor "invalid_user" "wrong_password") (snd nav) in
  let wait := LocatorWaitFor (errorMessage constructor) Visible (Some 3000) in
  let probe := perform d wait (final attempt) in
  let r := run d (scenario should_show_error_with_invalid_username) w in
  fulfilled (fst nav) = true →
  result attempt = Fulfilled tt →
  fulfilled (fst probe) = false →
  result r = Rejected (assertion_failed "toBe") ∧
  is_timeout (assertion_failed "toBe") = false ∧
  calls r = PageGoto "https://www.saucedemo.com/" :: calls attempt ++ [wait] ∧
  final r = snd probe.
Proof.
  cbn zeta. unfold scenario, should_show_error_with_invalid_username.
  cbn zeta. unfold mbind, Prog_bind, calls.
  destruct member_credentials as (-> & -> & _ & _).
  rewrite run_bind, run_beforeEach. unfold then_run. cbn [result final trace].
  destruct (perform d (PageGoto _) w) as [[[]|e] w0]; cbn [fst snd result fulfilled];
    [|discriminate].
  intros _. cbn [bind]. rewrite run_bind. unfold then_run.
  destruct (run d (login constructor _ _) w0) as [t [[]|e0] w1]; simpl;
    [|discriminate].
  intros _. unfold isErrorVisible, toBe. simpl.
  destruct (perform d (LocatorWaitFor _ _ (Some _)) w1) as [[[]|e1] w2]; simpl;
    [discriminate|].
  intros _. rewrite map_app. auto.
Qed.

(** X12: the scenario 'should show error when username is empty',
    hook included, hands the empty string to [login] with the valid
    password, and passes exactly when the navigation and the attempt
    go through, the banner shows, and its text is a string that
    contains the message for a missing username.  When the banner
    does not show, the scenario fails with the error of that wait. *)
Theorem empty_username_scenario (w : World d) :
  let nav := perform d (PageGoto "https://www.saucedemo.com/") w in
  let attempt := run d (login constructor "" "secret_sauce") (snd nav) in
  let shown := perform d (LocatorWaitFor (errorMessage constructor) Visible None)
                       (final attempt) in
  let text := perform d (LocatorTextContent (errorMessage constructor)) (snd shown) in
  let r := run d (scenario should_show_error_when_username_is_empty) w in
  (result r = Fulfilled tt ↔
     fulfilled (fst nav) = true ∧ result attempt = Fulfilled tt ∧
     fulfilled (fst shown) = true ∧
     ∃ s, fst text = Fulfilled (Some s) ∧
          includes s "Epic sadface: Username is required" = true) ∧
  (∀ e, fulfilled (fst nav) = true → result attempt = Fulfilled tt →
        fst shown = Rejected e → result r = Rejected e).
Proof.
  cbn zeta. unfold scenario, should_show_error_when_username_is_empty.
  cbn zeta. unfold mbind, Prog_bind.
  destruct member_credentials as (_ & _ & _ & ->).
  rewrite run_bind, run_beforeEach. unfold then_run. cbn [result final trace].
  destruct (perform d (PageGoto _) w) as [[[]|e] w0]; cbn [fst snd result fulfilled].
  2:{ split; [|intros e' He; discriminate He].
      split; [discriminate|]. intros [He _]. discriminate He. }
  cbn [bind].
  pose proof (error_text_scenario "" "secret_sauce"
                "Epic sadface: Username is required" w0) as [Hpass Hfail].
  cbn zeta in Hpass, Hfail. split.
  - split.
    + intros Hr. split; [reflexivity|]. apply (proj1 Hpass). exact Hr.
    + intros [_ Hr]. apply (proj2 Hpass). exact Hr.
  - intros e _. exact (Hfail e).
Qed.

(** X13: the scenario 'should show error when password is empty',
    hook included, hands [standard_user] and the empty string to
    [login], and passes exactly when the navigation and the attempt go
    through, the banner shows, and its text is a string that contains
    the message for a missing password.  When the banner does not
    show, the scenario fails with the error of that wait. *)
Theorem empty_password_scenario (w : World d) :
  let nav := perform d (PageGoto "https://www.saucedemo.com/") w in
  let attempt := run d (login constructor "standard_user" "") (snd nav) in
  let shown := perform d (LocatorWaitFor (errorMessage constructor) Visible None)
                       (final attempt) in
  let text := perform d (LocatorTextContent (errorMessage constructor)) (snd shown) in
  let r := run d (scenario should_show_error_when_password_is_empty) w in
  (result r = Fulfilled tt ↔
     fulfilled (fst nav) = true ∧ result attempt = Fulfilled tt ∧
     fulfilled (fst shown) = true ∧
     ∃ s, fst text = Fulfilled (Some s) ∧
          includes s "Epic sadface: Password is required" = true) ∧
  (∀ e, fulfilled (fst nav) = true → result attempt = Fulfilled tt →
        fst shown = Rejected e → result r = Rejected e).
Proof.
  cbn zeta. unfold scenario, should_show_error_when_password_is_empty.
  cbn zeta. unfold mbind, Prog_bind.
  destruct member_credentials as (_ & _ & -> & _).
  rewrite run_bind, run_beforeEach. unfold then_run. cbn [result final trace].
  destruct (perform d (PageGoto _) w) as [[[]|e] w0]; cbn [fst snd result fulfilled].
  2:{ split; [|intros e' He; discriminate He].
      split; [discriminate|]. intros [He _]. discriminate He. }
  cbn [bind].
  pose proof (error_text_scenario "standard_user" ""
                "Epic sadface: Password is required" w0) as [Hpass Hfail].
  cbn zeta in Hpass, Hfail. split.
  - split.
    + intros Hr. split; [reflexivity|]. apply (proj1 Hpass). exact Hr.
    + intros [_ Hr]. apply (proj2 Hpass). exact Hr.
  - intros e _. exact (Hfail e).
Qed.

End Scenarios.

(** X11 at the stub page with no banner: the site shows no error, the
    probe times out and the scenario fails by its assertion. *)
Lemma invalid_username_scenario_fails_at_probe_on_stub :
  let d := Doubles.stub_page constructor in
  let w := fresh_login_page constructor in
  let r := run d (LoginSpec.scenario LoginSpec.should_show_error_with_invalid_username) w in
  result r = Rejected (Expect.assertion_failed "toBe") ∧
  length (calls r) = 5%nat.
Proof.
  cbn zeta.
  pose proof (invalid_username_scenario_fails_at_probe
                (Doubles.stub_page constructor) (fresh_login_page constructor)) as H.
  cbn zeta in H.
  destruct H as (Hres & _ & Hcalls & _); [by vm_compute..|].
  split; [exact Hres|].
  rewrite Hcalls. by vm_compute.
Defined.

(** The scenario for an empty username does pass on a page that shows
    the banner asked for. *)
Lemma empty_username_scenario_passes_on_stub :
  result (run (Doubles.stub_page constructor)
              (LoginSpec.scenario LoginSpec.should_show_error_when_username_is_empty)
              (username_required_page constructor)) = Fulfilled tt.
Proof. by vm_compute. Qed.

(** X14: the four error messages tell the failures apart under the
    "contains" comparison the scenarios use: none of them occurs inside
    another, so a banner that shows one of the four texts satisfies
    the assertion on that message only. *)
Theorem error_messages_tell_apart (m m' : string) :
  let catalog := [TestDataObjects.LOCKED_USER TestDataObjects.ERROR_MESSAGES;
                  TestDataObjects.INVALID_CREDENTIALS TestDataObjects.ERROR_MESSAGES;
                  TestDataObjects.MISSING_USERNAME TestDataObjects.ERROR_MESSAGES;
                  TestDataObjects.MISSING_PASSWORD TestDataObjects.ERROR_MESSAGES] in
  m ∈ catalog → m' ∈ catalog → Expect.includes m m' = true → m = m'.
Proof.
  cbn zeta. rewrite !elem_of_cons, !elem_of_nil.
  intros [->|[->|[->|[->|[]]]]] [->|[->|[->|[->|[]]]]] Hin;
    vm_compute in Hin; try discriminate Hin; reflexivity.
Qed.

(** X14 at the message for a locked-out user. *)
Lemma error_messages_tell_apart_locked :
  let m := TestDataObjects.LOCKED_USER TestDataObjects.ERROR_MESSAGES in
  Expect.includes m m = true ∧ m = m.
Proof.
  cbn zeta.
  assert (Hin : Expect.includes
                  (TestDataObjects.LOCKED_USER TestDataObjects.ERROR_MESSAGES)
                  (TestDataObjects.LOCKED_USER TestDataObjects.ERROR_MESSAGES) = true)
    by (by vm_compute).
  split; [exact Hin|].
  apply (error_messages_tell_apart _ _); [| |exact Hin];
    cbn zeta; rewrite !elem_of_cons; by left.
Defined.
